(** * Trajectory spline fit (plugins/trajectory/filters/SplineFit.hpp)

    A shallow embedding of the header [SplineFit.hpp] of the trajectory
    plugin: the scalar cubic evaluator [SplineFitScalar::EndPointCubic], the
    class [SplineFit<N>] (constructor, [tconvert], [fillmissing]) and the two
    residual functors [AccelJumpConstraint<N>] and [ClampConstraint<N>].

    Numeric model.  The functions of the header are templates over a numeric
    type [T], and the members of [SplineFit] are [double]s.  They are
    embedded twice.  The main embedding reads [T] and [double] as the real
    numbers [R]: arithmetic is exact, there is no rounding, no infinity and
    no NaN; it carries the statements about the formulas, and every
    statement that depends on exactness says so.  The module [Double]
    instantiates the templates at [double] itself, with binary64 values and
    operations; it shows where an equality of the exact embedding is lost to
    rounding in the program as it runs.  The type [int] keeps its 32-bit
    range: an [int] operation whose mathematical result leaves the range has
    no defined result ([Undefined]), and so has the conversion of a real to
    [int]. *)

From Stdlib Require Import Floats.
From Stdlib Require Import Reals Lra Lia ZArith List Bool.
Import ListNotations.

Open Scope R_scope.

(** ** Outcomes of a C++ evaluation *)

(** The only exception the header can raise is the [std::length_error] of
    [std::vector]'s sizing constructor. *)
Inductive exn : Type :=
| length_error.

Inductive outcome (A : Type) : Type :=
| Ok (a : A)
| Throws (e : exn)
| Undefined.

Arguments Ok {A} a.
Arguments Throws {A} e.
Arguments Undefined {A}.

Definition bind {A B : Type} (c : outcome A) (k : A -> outcome B) : outcome B :=
  match c with
  | Ok a => k a
  | Throws e => Throws e
  | Undefined => Undefined
  end.

Notation "x <- c ;; k" := (bind c (fun x => k))
  (at level 61, c at next level, right associativity).

(** ** The type [int] *)

Definition INT_MIN : Z := (-2147483648)%Z.
Definition INT_MAX : Z := 2147483647%Z.

Definition int_range (z : Z) : bool :=
  ((INT_MIN <=? z) && (z <=? INT_MAX))%Z.

(** The result of a signed operation: defined only when representable. *)
Definition to_int (z : Z) : outcome Z :=
  if int_range z then Ok z else Undefined.

Definition int_add (a b : Z) : outcome Z := to_int (a + b).
Definition int_sub (a b : Z) : outcome Z := to_int (a - b).

(** [std::floor] on a (finite) double, and the conversion [int(x)], which
    truncates toward zero and is undefined when the truncated value is not
    representable. *)
Definition std_floor (x : R) : R := IZR (Zfloor x).

Definition Ztrunc (x : R) : Z :=
  if Rlt_dec x 0 then Zceil x else Zfloor x.

Definition int_of_double (x : R) : outcome Z := to_int (Ztrunc x).

(** ** [SplineFitScalar] *)

Module SplineFitScalar.

(** The result of [EndPointCubic]: the returned value and the contents of
    the cells behind the two optional output pointers after the call.  A
    pointer argument is [None] for [nullptr] and [Some old] for the address
    of a cell holding [old]; the cells are distinct from each other and
    from the operands. *)
Record result : Type := mk_result {
  value : R;
  v_cell : option R;
  a_cell : option R
}.

Definition EndPointCubic (rm vm rp vp t : R) (v a : option R) : result :=
  let rs := rp + rm in
  let rd := rp - rm in
  let vs := vp + vm in
  let vd := vp - vm in
  let a0 := (4.0 * rs - vd) / 8.0 in
  let a1 := (6.0 * rd - vs) / 4.0 in
  let a2 := vd / 2.0 in
  let a3 := -2.0 * rd + vs in
  let v' := match v with
            | Some _ => Some (t * (t * 3.0 * a3 + 2.0 * a2) + a1)
            | None => None
            end in
  let a' := match a with
            | Some _ => Some (t * 6.0 * a3 + 2.0 * a2)
            | None => None
            end in
  mk_result (t * (t * (t * a3 + a2) + a1) + a0) v' a'.

(** What a caller reads off a call: the returned position, and the
    velocity and acceleration left in the cells it supplied. *)
Definition cubic_position (rm vm rp vp t : R) : R :=
  value (EndPointCubic rm vm rp vp t None None).

Definition cubic_velocity (rm vm rp vp t : R) : R :=
  match v_cell (EndPointCubic rm vm rp vp t (Some 0) None) with
  | Some x => x
  | None => 0
  end.

Definition cubic_acceleration (rm vm rp vp t : R) : R :=
  match a_cell (EndPointCubic rm vm rp vp t None (Some 0)) with
  | Some x => x
  | None => 0
  end.

(** The third derivative of the segment cubic: the acceleration is affine
    in [t], and this is its slope, read off the two ends of the segment
    (which has unit length in normalized time). *)
Definition cubic_jerk (rm vm rp vp : R) : R :=
  cubic_acceleration rm vm rp vp 0.5 - cubic_acceleration rm vm rp vp (-0.5).

End SplineFitScalar.

(** The coefficients as the specification names them. *)
Definition coef_a0 (rm vm rp vp : R) : R := (4 * (rp + rm) - (vp - vm)) / 8.
Definition coef_a1 (rm vm rp vp : R) : R := (6 * (rp - rm) - (vp + vm)) / 4.
Definition coef_a2 (rm vm rp vp : R) : R := (vp - vm) / 2.
Definition coef_a3 (rm vm rp vp : R) : R := -2 * (rp - rm) + (vp + vm).

(** A cubic polynomial in absolute time and its derivative. *)
Definition cubic (c0 c1 c2 c3 : R) (tau : R) : R :=
  c0 + c1 * tau + c2 * tau ^ 2 + c3 * tau ^ 3.

Definition cubic_deriv (c1 c2 c3 : R) (tau : R) : R :=
  c1 + 2 * c2 * tau + 3 * c3 * tau ^ 2.

(** ** Arrays and loops *)

(** The memory behind a [T*]: the value at each index. *)
Definition array : Type := nat -> R.

Definition store (a : array) (i : nat) (x : R) : array :=
  fun k => if Nat.eqb k i then x else a k.

(** [for (int i = start; i < start + count; ++i) body], on a state. *)
Fixpoint for_loop {St : Type} (start count : nat) (body : nat -> St -> St)
    (s : St) : St :=
  match count with
  | O => s
  | S count' => for_loop (S start) count' body (body start s)
  end.

(** [vec[i] = x] on a [std::vector], for [i] below its size. *)
Fixpoint set_nth {A : Type} (i : nat) (x : A) (l : list A) : list A :=
  match l, i with
  | [], _ => []
  | _ :: tl, O => x :: tl
  | hd :: tl, S i' => hd :: set_nth i' x tl
  end.

(** [std::vector<A>(n)] with [n] an [int]: [n] converts to the 64-bit
    [size_type]; a size above [max_size()] (which is at most
    [PTRDIFF_MAX]) raises [std::length_error], and otherwise the vector has
    [n] elements, the [k]-th initialised to [init k].  Storage is assumed
    to be available. *)
Definition PTRDIFF_MAX : Z := 9223372036854775807%Z.

Definition to_size_t (n : Z) : Z := (n mod 2 ^ 64)%Z.

Definition std_vector {A : Type} (n : Z) (init : nat -> A) : outcome (list A) :=
  let sz := to_size_t n in
  if (PTRDIFF_MAX <? sz)%Z then Throws length_error
  else Ok (map init (seq 0 (Z.to_nat sz))).

(** ** [SplineFit<N>] *)

Module SplineFit.

(** [Matrix<double, N, 1>]: the [N] coefficients in order. *)
Definition datum : Type := list R.

Record obj : Type := mk {
  num : Z;
  tblock : R;
  tstart : R;
  r : list datum;
  v : list datum;
  missing : list bool
}.

Section Constructor.
(** The default constructor of [datum] leaves its coefficients
    unset: the contents of the fresh [r] and [v] are whatever the
    storage holds. *)
Variables indeterminate_r indeterminate_v : nat -> datum.

(** [SplineFit(int _num = -1, double _tblock = 1, double _tstart = 0)].
    The members are initialised in declaration order; [std::vector<bool>]
    value-initialises its elements to [false]. *)
Definition ctor (_num : Z) (_tblock _tstart : R) : outcome obj :=
  let num := _num in
  nr <- int_add num 1 ;;
  r <- std_vector nr indeterminate_r ;;
  nv <- int_add num 1 ;;
  v <- std_vector nv indeterminate_v ;;
  nm <- int_add num 1 ;;
  missing <- std_vector nm (fun _ => false) ;;
  Ok (mk num _tblock _tstart r v missing).

Definition default_ctor : outcome obj := ctor (-1) 1 0.
End Constructor.

(** [tconvert]: time to block index and fractional time.  A zero
    [tblock] makes the quotient infinite or NaN, which [int(...)] cannot
    convert. *)
Definition tconvert (self : obj) (t : R) : outcome (Z * R) :=
  if Req_dec_T (tblock self) 0 then Undefined
  else
    hi <- int_sub (num self) 1 ;;
    raw <- int_of_double (std_floor ((t - tstart self) / tblock self)) ;;
    let i := Z.min hi (Z.max 0 raw) in
    let tf := (t - tstart self) / tblock self - (IZR i + 0.5) in
    Ok (i, tf).

Section FillMissing.
(** Modelled from the spec: the rule that estimates position and velocity
    at a flagged node from the current samples (interpolation between the
    nearest known neighbours, or extrapolation at an end of the sequence).
    The specification gives it in words only and does not say how
    [linearfit] changes it, so it is a parameter here. *)
Variable estimate : bool -> obj -> nat -> datum * datum.

(** Modelled from the spec: one step of the scan of [fillmissing], at the
    node [i]: a flagged node has its position and velocity overwritten, a
    known node is left alone. *)
Definition fill_node (linearfit : bool) (self : obj) (i : nat) : obj :=
  if nth i (missing self) false then
    let (ri, vi) := estimate linearfit self i in
    mk (num self) (tblock self) (tstart self)
       (set_nth i ri (r self)) (set_nth i vi (v self)) (missing self)
  else self.

(** Modelled from the spec: the body of [SplineFit<N>::fillmissing],
    which the header only declares.  One scan over the nodes in order;
    each node flagged missing gets the estimated position and velocity;
    the call reports failure, changing nothing, when no node is known.
    The result is the returned flag and the object after the call. *)
Definition fillmissing (linearfit : bool) (self : obj) : bool * obj :=
  if forallb (fun m => m) (missing self) then (false, self)
  else (true,
        fold_left (fill_node linearfit) (seq 0 (length (missing self))) self).
End FillMissing.

End SplineFit.

(** ** [AccelJumpConstraint<N>] *)

(** In both functors the inputs are read-only arrays of [N] values and
    [residual] is an array of [N] cells apart from them; [T(_scale)] is the
    scale itself.  The result is the returned flag and [residual] after the
    call. *)
Module AccelJumpConstraint.

Record obj : Type := mk { _scale : R }.

(** [AccelJumpConstraint(double tblock = 1)].  At [tblock = 0] the program's
    scale is infinite; the quotient of the exact embedding has no meaning
    there and no statement below rests on its value. *)
Definition ctor (tblock : R) : obj := mk (2 / (tblock * tblock)).

Definition call (N : nat) (self : obj) (ra va vb rc vc : array)
    (residual : array) : bool * array :=
  let scale := _scale self in
  let residual :=
    for_loop 0 N
      (fun i residual =>
         store residual i
           (scale * (3.0 * (rc i - ra i) - (vc i + va i) - 4.0 * vb i)))
      residual in
  (true, residual).

End AccelJumpConstraint.

(** ** [ClampConstraint<N>] *)

Module ClampConstraint.

Record obj : Type := mk { _scale : R }.

(** [ClampConstraint(double tblock = 1)].  At [tblock = 0] the program's
    scale is infinite; the quotient of the exact embedding has no meaning
    there and no statement below rests on its value. *)
Definition ctor (tblock : R) : obj := mk (1 / (tblock * tblock * tblock)).

Definition call (N : nat) (self : obj) (ra va rb rc vc : array)
    (residual : array) : bool * array :=
  let scale := _scale self in
  let residual :=
    for_loop 0 N
      (fun i residual =>
         store residual i
           (scale * (4.0 * rb i - 2.0 * (rc i + ra i) + (vc i - va i))))
      residual in
  (true, residual).

End ClampConstraint.

(** ** The instantiation at [double] *)

(** The templates with [T = double]: the operands are binary64 values and
    every operation rounds to nearest, as the compiled program computes.
    The text of each function is the text of its counterpart above. *)
Module Double.


Record result : Type := mk_result {
  value : float;
  v_cell : option float;
  a_cell : option float
}.

Definition EndPointCubic (rm vm rp vp t : float) (v a : option float)
    : result :=
  (let rs := rp + rm in
   let rd := rp - rm in
   let vs := vp + vm in
   let vd := vp - vm in
   let a0 := (4.0 * rs - vd) / 8.0 in
   let a1 := (6.0 * rd - vs) / 4.0 in
   let a2 := vd / 2.0 in
   let a3 := -2.0 * rd + vs in
   let v' := match v with
             | Some _ => Some (t * (t * 3.0 * a3 + 2.0 * a2) + a1)
             | None => None
             end in
   let a' := match a with
             | Some _ => Some (t * 6.0 * a3 + 2.0 * a2)
             | None => None
             end in
   mk_result (t * (t * (t * a3 + a2) + a1) + a0) v' a')%float.

Definition array : Type := nat -> float.

Definition store (a : array) (i : nat) (x : float) : array :=
  fun k => if Nat.eqb k i then x else a k.

Module AccelJumpConstraint.

Record obj : Type := mk { _scale : float }.

Definition ctor (tblock : float) : obj := mk (2 / (tblock * tblock))%float.

Definition call (N : nat) (self : obj) (ra va vb rc vc : array)
    (residual : array) : bool * array :=
  let scale := _scale self in
  let residual :=
    for_loop 0 N
      (fun i residual =>
         store residual i
           (scale * (3.0 * (rc i - ra i) - (vc i + va i) - 4.0 * vb i))%float)
      residual in
  (true, residual).

End AccelJumpConstraint.

Module ClampConstraint.

Record obj : Type := mk { _scale : float }.

Definition ctor (tblock : float) : obj :=
  mk (1 / (tblock * tblock * tblock))%float.

Definition call (N : nat) (self : obj) (ra va rb rc vc : array)
    (residual : array) : bool * array :=
  let scale := _scale self in
  let residual :=
    for_loop 0 N
      (fun i residual =>
         store residual i
           (scale * (4.0 * rb i - 2.0 * (rc i + ra i) + (vc i - va i)))%float)
      residual in
  (true, residual).

End ClampConstraint.

End Double.

Import SplineFitScalar.

(** ** Continuity across a node *)

(** Three consecutive nodes [a], [b], [c] carry positions and velocities
    (velocities per block, that is, derivatives in normalized time); the
    segment [a-b] ends at the node [b] at [t = +0.5] and the segment [b-c]
    starts there at [t = -0.5].  Derivatives in absolute time divide by
    a power of [tblock]. *)
Section Node.
Variable tblock : R.
Variables ra va rb vb rc vc : R.





End Node.


(** ** Example data *)

(** Three nodes one block apart, in three dimensions, on the curve
    [tau ^ 3] around [tau = 0] with blocks of unit length. *)
Definition ex_ra : array := fun _ => -1.
Definition ex_va : array := fun _ => 3.
Definition ex_vb : array := fun _ => 0.
Definition ex_rc : array := fun _ => 1.
Definition ex_vc : array := fun _ => 3.
Definition ex_residual : array := fun _ => 7.

(** Some contents for fresh storage, and the five-block trajectory of the
    specification's examples ([tblock = 1], [tstart = 0], [num = 5]). *)
Definition ex_storage : nat -> SplineFit.datum := fun _ => [0; 0; 0].

Definition ex_fit : SplineFit.obj :=
  SplineFit.mk 5 1 0
    (map ex_storage (seq 0 6)) (map ex_storage (seq 0 6))
    (map (fun _ => false) (seq 0 6)).






(** * Properties *)

(** Decimal literals of the source ([4.0], [0.5]) are rationals injected
    into [R]; [decimals] exposes them to [field] and [lra]. *)
Ltac decimals := cbv [Q2R QArith_base.Qnum QArith_base.Qden] in *.

(** C1.  For all operands, [EndPointCubic] returns
    [a0 + a1*t + a2*t^2 + a3*t^3] with the coefficients of the
    specification; a supplied velocity cell receives
    [a1 + 2*a2*t + 3*a3*t^2], a supplied acceleration cell receives
    [2*a2 + 6*a3*t], and a null pointer stays null. *)
Theorem EndPointCubic_spec (rm vm rp vp t : R) (v a : option R)
    (v_old a_old : R) :
  let c0 := coef_a0 rm vm rp vp in
  let c1 := coef_a1 rm vm rp vp in
  let c2 := coef_a2 rm vm rp vp in
  let c3 := coef_a3 rm vm rp vp in
  value (EndPointCubic rm vm rp vp t v a)
    = c0 + c1 * t + c2 * t ^ 2 + c3 * t ^ 3
  /\ v_cell (EndPointCubic rm vm rp vp t (Some v_old) a)
    = Some (c1 + 2 * c2 * t + 3 * c3 * t ^ 2)
  /\ a_cell (EndPointCubic rm vm rp vp t v (Some a_old))
    = Some (2 * c2 + 6 * c3 * t)
  /\ v_cell (EndPointCubic rm vm rp vp t None a) = None
  /\ a_cell (EndPointCubic rm vm rp vp t v None) = None.
Proof.
  unfold EndPointCubic, coef_a0, coef_a1, coef_a2, coef_a3; simpl; decimals.
  repeat split; first [reflexivity | field | apply f_equal; field].
Qed.

(** ** Calculus of cubics *)

(** [cubic_deriv] is the derivative of [cubic]. *)
Lemma cubic_derivable (c0 c1 c2 c3 tau : R) :
  derivable_pt_lim (cubic c0 c1 c2 c3) tau (cubic_deriv c1 c2 c3 tau).
Proof.
  pose (g := (fct_cte c0
              + (mult_real_fct c1 id
                 + (mult_real_fct c2 (fun x => x ^ 2)
                    + mult_real_fct c3 (fun x => x ^ 3))))%F).
  apply derivable_pt_lim_ext with (f := g).
  - intro z; unfold g, cubic, plus_fct, mult_real_fct, fct_cte, id; ring.
  - replace (cubic_deriv c1 c2 c3 tau)
      with (0 + (c1 * 1 + (c2 * (INR 2 * tau ^ pred 2)
                           + c3 * (INR 3 * tau ^ pred 3))))
      by (unfold cubic_deriv; simpl; ring).
    unfold g.
    repeat first
      [ apply derivable_pt_lim_plus
      | apply derivable_pt_lim_scal
      | apply derivable_pt_lim_const
      | apply derivable_pt_lim_id
      | apply derivable_pt_lim_pow ].
Qed.


(** The segment cubic of [EndPointCubic] is the cubic with the
    coefficients of the specification. *)
Lemma cubic_position_cubic (rm vm rp vp t : R) :
  cubic_position rm vm rp vp t
  = cubic (coef_a0 rm vm rp vp) (coef_a1 rm vm rp vp)
          (coef_a2 rm vm rp vp) (coef_a3 rm vm rp vp) t.
Proof.
  unfold cubic_position, EndPointCubic, cubic, coef_a0, coef_a1, coef_a2,
    coef_a3; simpl; decimals; field.
Qed.

Lemma cubic_velocity_cubic (rm vm rp vp t : R) :
  cubic_velocity rm vm rp vp t
  = cubic (coef_a1 rm vm rp vp) (2 * coef_a2 rm vm rp vp)
          (3 * coef_a3 rm vm rp vp) 0 t.
Proof.
  unfold cubic_velocity, EndPointCubic, cubic, coef_a1, coef_a2, coef_a3;
    simpl; decimals; field.
Qed.

Lemma cubic_acceleration_cubic (rm vm rp vp t : R) :
  cubic_acceleration rm vm rp vp t
  = cubic (2 * coef_a2 rm vm rp vp) (6 * coef_a3 rm vm rp vp) 0 0 t.
Proof.
  unfold cubic_acceleration, EndPointCubic, cubic, coef_a2, coef_a3;
    simpl; decimals; field.
Qed.

(** The velocity output is the derivative of the position, the
    acceleration output the derivative of the velocity, and the third
    derivative is the constant [6 * a3]. *)
Lemma cubic_velocity_derives (rm vm rp vp t : R) :
  derivable_pt_lim (cubic_position rm vm rp vp) t (cubic_velocity rm vm rp vp t).
Proof.
  eapply derivable_pt_lim_ext.
  - intro z; symmetry; apply cubic_position_cubic.
  - replace (cubic_velocity rm vm rp vp t)
      with (cubic_deriv (coef_a1 rm vm rp vp) (coef_a2 rm vm rp vp)
              (coef_a3 rm vm rp vp) t)
      by (rewrite cubic_velocity_cubic; unfold cubic, cubic_deriv; ring).
    apply cubic_derivable.
Qed.

Lemma cubic_acceleration_derives (rm vm rp vp t : R) :
  derivable_pt_lim (cubic_velocity rm vm rp vp) t
    (cubic_acceleration rm vm rp vp t).
Proof.
  eapply derivable_pt_lim_ext.
  - intro z; symmetry; apply cubic_velocity_cubic.
  - replace (cubic_acceleration rm vm rp vp t)
      with (cubic_deriv (2 * coef_a2 rm vm rp vp) (3 * coef_a3 rm vm rp vp) 0 t)
      by (rewrite cubic_acceleration_cubic; unfold cubic, cubic_deriv; ring).
    apply cubic_derivable.
Qed.

Lemma cubic_jerk_a3 (rm vm rp vp : R) :
  cubic_jerk rm vm rp vp = 6 * coef_a3 rm vm rp vp.
Proof.
  unfold cubic_jerk; rewrite !cubic_acceleration_cubic.
  unfold cubic; decimals; field.
Qed.

Lemma cubic_jerk_derives (rm vm rp vp t : R) :
  derivable_pt_lim (cubic_acceleration rm vm rp vp) t (cubic_jerk rm vm rp vp).
Proof.
  eapply derivable_pt_lim_ext.
  - intro z; symmetry; apply cubic_acceleration_cubic.
  - replace (cubic_jerk rm vm rp vp)
      with (cubic_deriv (6 * coef_a3 rm vm rp vp) 0 0 t)
      by (rewrite cubic_jerk_a3; unfold cubic_deriv; ring).
    apply cubic_derivable.
Qed.

(** X2.  The velocity output is the derivative in [t] of the returned
    position, and the acceleration output is the derivative of the velocity
    output. *)
Theorem EndPointCubic_derivatives (rm vm rp vp t : R) :
  derivable_pt_lim (cubic_position rm vm rp vp) t
    (cubic_velocity rm vm rp vp t)
  /\ derivable_pt_lim (cubic_velocity rm vm rp vp) t
       (cubic_acceleration rm vm rp vp t).
Proof.
  split; [apply cubic_velocity_derives | apply cubic_acceleration_derives].
Qed.

(** ** The scalar cubic evaluator *)

(** C4, in exact arithmetic.  With exact operations the cubic
    interpolates the endpoint data: at [t = -0.5] the returned position is
    [rm] and the velocity output is [vm]; at [t = +0.5] they are [rp] and
    [vp]. *)
Theorem EndPointCubic_hermite (rm vm rp vp : R) (v a : option R)
    (v_old : R) :
  value (EndPointCubic rm vm rp vp (-0.5) v a) = rm
  /\ value (EndPointCubic rm vm rp vp 0.5 v a) = rp
  /\ v_cell (EndPointCubic rm vm rp vp (-0.5) (Some v_old) a) = Some vm
  /\ v_cell (EndPointCubic rm vm rp vp 0.5 (Some v_old) a) = Some vp.
Proof.
  unfold EndPointCubic; simpl; decimals.
  repeat split; first [field | apply f_equal; field].
Qed.

(** A worked segment: from rest at 0 to rest at 1, the midpoint is at 1/2
    with velocity 3/2 and no acceleration. *)
Example EndPointCubic_midpoint :
  EndPointCubic 0 0 1 0 0 (Some 0) (Some 0)
  = mk_result (1 / 2) (Some (3 / 2)) (Some 0).
Proof.
  unfold EndPointCubic; decimals.
  f_equal; [| apply f_equal | apply f_equal]; field.
Qed.

(** ** The residual loops *)

(** A loop that stores [f i] at each index [i] it visits leaves [f k] at
    the visited indices and the old contents elsewhere. *)
Lemma for_loop_store (f : nat -> R) (count start : nat) (res : array) (k : nat) :
  for_loop start count (fun i res => store res i (f i)) res k
  = if (start <=? k)%nat && (k <? start + count)%nat then f k else res k.
Proof.
  revert start res; induction count as [|count IH]; intros start res; simpl.
  - destruct (Nat.leb_spec start k), (Nat.ltb_spec k (start + 0)); simpl;
      try reflexivity; lia.
  - rewrite IH; unfold store.
    destruct (Nat.leb_spec (S start) k), (Nat.ltb_spec k (S start + count)),
      (Nat.leb_spec start k), (Nat.ltb_spec k (start + S count)),
      (Nat.eqb_spec k start); simpl; subst; try reflexivity; lia.
Qed.

Lemma AccelJump_residual (N : nat) (self : AccelJumpConstraint.obj)
    (ra va vb rc vc residual : array) (i : nat) :
  (i < N)%nat ->
  snd (AccelJumpConstraint.call N self ra va vb rc vc residual) i
  = AccelJumpConstraint._scale self
    * (3 * (rc i - ra i) - (vc i + va i) - 4 * vb i).
Proof.
  intro Hi; unfold AccelJumpConstraint.call; simpl.
  rewrite for_loop_store with
    (f := fun i => AccelJumpConstraint._scale self
                   * (3.0 * (rc i - ra i) - (vc i + va i) - 4.0 * vb i)).
  destruct (Nat.ltb_spec i (0 + N)); [simpl; decimals; field | lia].
Qed.

Lemma Clamp_residual (N : nat) (self : ClampConstraint.obj)
    (ra va rb rc vc residual : array) (i : nat) :
  (i < N)%nat ->
  snd (ClampConstraint.call N self ra va rb rc vc residual) i
  = ClampConstraint._scale self
    * (4 * rb i - 2 * (rc i + ra i) + (vc i - va i)).
Proof.
  intro Hi; unfold ClampConstraint.call; simpl.
  rewrite for_loop_store with
    (f := fun i => ClampConstraint._scale self
                   * (4.0 * rb i - 2.0 * (rc i + ra i) + (vc i - va i))).
  destruct (Nat.ltb_spec i (0 + N)); [simpl; decimals; field | lia].
Qed.

(** Both calls return [true] and touch no cell past the [N]-th. *)
Lemma AccelJump_frame (N : nat) (self : AccelJumpConstraint.obj)
    (ra va vb rc vc residual : array) (k : nat) :
  (N <= k)%nat ->
  fst (AccelJumpConstraint.call N self ra va vb rc vc residual) = true
  /\ snd (AccelJumpConstraint.call N self ra va vb rc vc residual) k
     = residual k.
Proof.
  intro Hk; split; [reflexivity|].
  unfold AccelJumpConstraint.call; simpl.
  rewrite for_loop_store with
    (f := fun i => AccelJumpConstraint._scale self
                   * (3.0 * (rc i - ra i) - (vc i + va i) - 4.0 * vb i)).
  destruct (Nat.ltb_spec k (0 + N)); [lia | reflexivity].
Qed.

Lemma Clamp_frame (N : nat) (self : ClampConstraint.obj)
    (ra va rb rc vc residual : array) (k : nat) :
  (N <= k)%nat ->
  fst (ClampConstraint.call N self ra va rb rc vc residual) = true
  /\ snd (ClampConstraint.call N self ra va rb rc vc residual) k
     = residual k.
Proof.
  intro Hk; split; [reflexivity|].
  unfold ClampConstraint.call; simpl.
  rewrite for_loop_store with
    (f := fun i => ClampConstraint._scale self
                   * (4.0 * rb i - 2.0 * (rc i + ra i) + (vc i - va i))).
  destruct (Nat.ltb_spec k (0 + N)); [lia | reflexivity].
Qed.

(** A kink at [b]: three nodes at rest at the origin, except for a unit
    velocity at [b], one block apart. *)
Example AccelJump_kink :
  snd (AccelJumpConstraint.call 3 (AccelJumpConstraint.ctor 1)
         (fun _ => 0) (fun _ => 0) (fun _ => 1) (fun _ => 0) (fun _ => 0)
         ex_residual) 0%nat = -8.
Proof. rewrite AccelJump_residual by lia; simpl; field. Qed.

(** ** The acceleration-jump functor *)

(** C5.  The functor built from [tblock] has scale [2 / tblock^2], and its
    call leaves [scale * (3*(rc-ra) - (vc+va) - 4*vb)] in each of the [N]
    residual cells, with that one scale for every dimension. *)
Theorem AccelJumpConstraint_spec (N : nat) (tblock : R)
    (ra va vb rc vc residual : array) (i : nat) :
  (i < N)%nat ->
  let self := AccelJumpConstraint.ctor tblock in
  let scale := AccelJumpConstraint._scale self in
  scale = 2 / tblock ^ 2
  /\ snd (AccelJumpConstraint.call N self ra va vb rc vc residual) i
     = scale * (3 * (rc i - ra i) - (vc i + va i) - 4 * vb i).
Proof.
  intros Hi self scale; split.
  - unfold scale, self; simpl; f_equal; ring.
  - now apply AccelJump_residual.
Qed.


(** ** The clamp functor *)


(** The functor for [tblock = 2] on the example nodes, second dimension. *)
Lemma AccelJumpConstraint_spec_witness :
  (1 < 3)%nat
  /\ AccelJumpConstraint._scale (AccelJumpConstraint.ctor 2) = 2 / 2 ^ 2
  /\ snd (AccelJumpConstraint.call 3 (AccelJumpConstraint.ctor 2)
            ex_ra ex_va ex_vb ex_rc ex_vc ex_residual) 1%nat
     = AccelJumpConstraint._scale (AccelJumpConstraint.ctor 2)
       * (3 * (ex_rc 1%nat - ex_ra 1%nat) - (ex_vc 1%nat + ex_va 1%nat)
          - 4 * ex_vb 1%nat).
Proof.
  split; [lia|].
  apply (AccelJumpConstraint_spec 3 2 ex_ra ex_va ex_vb ex_rc ex_vc
           ex_residual 1); lia.
Defined.



(** ** Exactly sampled cubics *)



(** ** The same statements on [double] *)


(** C4 fails as stated on doubles: with [rm = 1e16], [rp = 1] and no
    velocity, the sums [rp + rm] and [rp - rm] absorb [rp], and at
    [t = +0.5] the evaluator returns 0, which is not [rp]. *)
Lemma EndPointCubic_double_loses_endpoint :
  Double.value (Double.EndPointCubic 1e16 0 1 0 0.5 None None) = 0%float
  /\ PrimFloat.eqb
       (Double.value (Double.EndPointCubic 1e16 0 1 0 0.5 None None)) 1
     = false.
Proof. split; vm_compute; reflexivity. Qed.




(** ** The block index mapper *)

Lemma Ztrunc_IZR (z : Z) : Ztrunc (IZR z) = z.
Proof.
  unfold Ztrunc, Zceil; destruct (Rlt_dec (IZR z) 0).
  - rewrite ZfloorNZ; lia.
  - apply ZfloorZ.
Qed.

Lemma int_range_spec (z : Z) :
  int_range z = true <-> (INT_MIN <= z <= INT_MAX)%Z.
Proof. unfold int_range; rewrite andb_true_iff, !Z.leb_le; tauto. Qed.

Lemma to_int_in_range (z : Z) :
  (INT_MIN <= z <= INT_MAX)%Z -> to_int z = Ok z.
Proof.
  intro H; unfold to_int; apply int_range_spec in H; now rewrite H.
Qed.

Lemma to_int_out_of_range (z : Z) :
  ~ (INT_MIN <= z <= INT_MAX)%Z -> to_int z = Undefined.
Proof.
  intro H; unfold to_int; destruct (int_range z) eqn:E; [|reflexivity].
  apply int_range_spec in E; contradiction.
Qed.

Lemma int_of_double_floor (x : R) :
  int_of_double (std_floor x) = to_int (Zfloor x).
Proof. unfold int_of_double, std_floor; now rewrite Ztrunc_IZR. Qed.



(** A raw block index outside the range of [int] is converted before it
    is clamped, and the conversion has no defined result. *)
Lemma tconvert_out_of_range (sf : SplineFit.obj) (t : R) :
  (1 <= SplineFit.num sf <= INT_MAX)%Z ->
  SplineFit.tblock sf <> 0 ->
  ~ (INT_MIN
     <= Zfloor ((t - SplineFit.tstart sf) / SplineFit.tblock sf)
     <= INT_MAX)%Z ->
  SplineFit.tconvert sf t = Undefined.
Proof.
  intros Hnum Htb Hq; unfold SplineFit.tconvert.
  destruct (Req_dec_T (SplineFit.tblock sf) 0) as [E|_]; [contradiction|].
  unfold int_sub; rewrite to_int_in_range by (unfold INT_MIN, INT_MAX in *; lia).
  simpl; rewrite int_of_double_floor, to_int_out_of_range by exact Hq.
  reflexivity.
Qed.

(** C2.  The mapper does not clamp every time: for the five-block
    trajectory with [tblock = 1] and [tstart = 0], the query
    [t = 3000000000] has raw index 3000000000, which [int(...)] cannot
    represent, so the call has no defined result where the claimed index
    is [4]. *)
Theorem tconvert_far_query :
  SplineFit.tconvert ex_fit 3000000000 = Undefined
  /\ Z.min (5 - 1) (Z.max 0 (Zfloor ((3000000000 - 0) / 1))) = 4%Z.
Proof.
  assert (F : Zfloor ((3000000000 - 0) / 1) = 3000000000%Z)
    by (apply Zfloor_eq; lra).
  split; [|rewrite F; reflexivity].
  apply tconvert_out_of_range; simpl.
  - unfold INT_MAX; lia.
  - lra.
  - rewrite F; unfold INT_MIN, INT_MAX; lia.
Qed.

(** ** Construction *)

Lemma std_vector_nonneg {A : Type} (n : Z) (init : nat -> A) :
  (0 <= n <= INT_MAX)%Z ->
  std_vector n init = Ok (map init (seq 0 (Z.to_nat n))).
Proof.
  intro Hn; unfold std_vector, to_size_t.
  rewrite Z.mod_small by (unfold INT_MAX in Hn; lia).
  destruct (Z.ltb_spec PTRDIFF_MAX n) as [H|_]; [|reflexivity].
  unfold PTRDIFF_MAX, INT_MAX in *; lia.
Qed.

Lemma std_vector_negative {A : Type} (n : Z) (init : nat -> A) :
  (INT_MIN <= n < 0)%Z -> std_vector n init = Throws length_error.
Proof.
  intro Hn; unfold std_vector, to_size_t.
  replace (n mod 2 ^ 64)%Z with (n + 2 ^ 64)%Z.
  - destruct (Z.ltb_spec PTRDIFF_MAX (n + 2 ^ 64)) as [_|H]; [reflexivity|].
    unfold PTRDIFF_MAX, INT_MIN in *; lia.
  - apply Z.mod_unique with (q := (-1)%Z);
      unfold INT_MIN in Hn; lia.
Qed.

(** What the constructor does on each [int] argument: an object with
    [num + 1] nodes when [-1 <= num < INT_MAX], the length error of
    [std::vector] when [num < -1], and an overflow of [num + 1] at
    [INT_MAX]. *)
Lemma ctor_nodes (ir iv : nat -> SplineFit.datum) (num : Z) (tblock tstart : R) :
  (-1 <= num < INT_MAX)%Z ->
  SplineFit.ctor ir iv num tblock tstart
  = Ok (SplineFit.mk num tblock tstart
          (map ir (seq 0 (Z.to_nat (num + 1))))
          (map iv (seq 0 (Z.to_nat (num + 1))))
          (map (fun _ => false) (seq 0 (Z.to_nat (num + 1))))).
Proof.
  intro Hn; unfold SplineFit.ctor, int_add.
  rewrite to_int_in_range by (unfold INT_MIN, INT_MAX in *; lia); simpl.
  rewrite !std_vector_nonneg by lia; reflexivity.
Qed.

Lemma ctor_negative (ir iv : nat -> SplineFit.datum) (num : Z) (tblock tstart : R) :
  (INT_MIN <= num < -1)%Z ->
  SplineFit.ctor ir iv num tblock tstart = Throws length_error.
Proof.
  intro Hn; unfold SplineFit.ctor, int_add.
  rewrite to_int_in_range by (unfold INT_MIN, INT_MAX in *; lia); simpl.
  rewrite std_vector_negative by lia; reflexivity.
Qed.

Lemma default_ctor_empty (ir iv : nat -> SplineFit.datum) :
  SplineFit.default_ctor ir iv = Ok (SplineFit.mk (-1) 1 0 [] [] []).
Proof. reflexivity. Qed.

Lemma ex_fit_constructed :
  SplineFit.ctor ex_storage ex_storage 5 1 0 = Ok ex_fit.
Proof. reflexivity. Qed.

(** C8, as the constructor behaves.  The constructor does not look at
    the block count: with fewer than two blocks it still builds an object
    of [num + 1] nodes ([num] being -1, 0 or 1), and it fails only for
    [num < -1], with the length error of the vector of negative size. *)
Theorem ctor_fewer_than_two_blocks (ir iv : nat -> SplineFit.datum)
    (num : Z) (tblock tstart : R) :
  (INT_MIN <= num < 2)%Z ->
  (num < -1 ->
   SplineFit.ctor ir iv num tblock tstart = Throws length_error)%Z
  /\ (-1 <= num ->
      exists sf, SplineFit.ctor ir iv num tblock tstart = Ok sf
                 /\ SplineFit.num sf = num
                 /\ Z.of_nat (length (SplineFit.r sf)) = num + 1
                 /\ Z.of_nat (length (SplineFit.v sf)) = num + 1
                 /\ Z.of_nat (length (SplineFit.missing sf)) = num + 1)%Z.
Proof.
  intro Hn; split; intro H.
  - apply ctor_negative; lia.
  - eexists; split; [apply ctor_nodes; unfold INT_MAX; lia|]; simpl.
    rewrite !length_map, !length_seq, Z2Nat.id by lia; auto.
Qed.

(** A trajectory of no block at all is constructed, with its one node. *)
Lemma ctor_fewer_than_two_blocks_witness :
  (INT_MIN <= 0 < 2)%Z
  /\ exists sf, SplineFit.ctor ex_storage ex_storage 0 1 0 = Ok sf
                /\ SplineFit.num sf = 0%Z
                /\ Z.of_nat (length (SplineFit.r sf)) = (0 + 1)%Z
                /\ Z.of_nat (length (SplineFit.v sf)) = (0 + 1)%Z
                /\ Z.of_nat (length (SplineFit.missing sf)) = (0 + 1)%Z.
Proof.
  assert (H : (INT_MIN <= 0 < 2)%Z) by (unfold INT_MIN; lia).
  split; [exact H|].
  apply (ctor_fewer_than_two_blocks ex_storage ex_storage 0 1 0 H); lia.
Defined.

(** C8 fails as stated: a one-block trajectory is constructed. *)
Lemma ctor_one_block :
  SplineFit.ctor ex_storage ex_storage 1 1 0
  = Ok (SplineFit.mk 1 1 0 [[0; 0; 0]; [0; 0; 0]] [[0; 0; 0]; [0; 0; 0]]
          [false; false]).
Proof. reflexivity. Qed.

(** C10, within the range of [int].  For [0 <= num < INT_MAX] the
    constructed object has exactly [num + 1] entries in each of [r], [v]
    and [missing], and every entry of [missing] is [false]. *)
Theorem ctor_sizes (ir iv : nat -> SplineFit.datum) (num : Z)
    (tblock tstart : R) :
  (0 <= num < INT_MAX)%Z ->
  exists sf, SplineFit.ctor ir iv num tblock tstart = Ok sf
             /\ Z.of_nat (length (SplineFit.r sf)) = (num + 1)%Z
             /\ Z.of_nat (length (SplineFit.v sf)) = (num + 1)%Z
             /\ Z.of_nat (length (SplineFit.missing sf)) = (num + 1)%Z
             /\ Forall (fun m => m = false) (SplineFit.missing sf).
Proof.
  intro Hn; eexists; split; [apply ctor_nodes; lia|]; simpl.
  rewrite !length_map, !length_seq, Z2Nat.id by lia.
  repeat split; apply Forall_forall; intros m Hm.
  apply in_map_iff in Hm; destruct Hm as (k & Hk & _); now symmetry.
Qed.

(** Five blocks give six nodes. *)
Lemma ctor_sizes_witness :
  (0 <= 5 < INT_MAX)%Z
  /\ exists sf, SplineFit.ctor ex_storage ex_storage 5 1 0 = Ok sf
                /\ Z.of_nat (length (SplineFit.r sf)) = (5 + 1)%Z
                /\ Z.of_nat (length (SplineFit.v sf)) = (5 + 1)%Z
                /\ Z.of_nat (length (SplineFit.missing sf)) = (5 + 1)%Z
                /\ Forall (fun m => m = false) (SplineFit.missing sf).
Proof.
  assert (H : (0 <= 5 < INT_MAX)%Z) by (unfold INT_MAX; lia).
  split; [exact H|].
  exact (ctor_sizes ex_storage ex_storage 5 1 0 H).
Defined.

(** C10 fails as stated at the largest [int]: [num + 1] overflows. *)
Lemma ctor_INT_MAX :
  SplineFit.ctor ex_storage ex_storage INT_MAX 1 0 = Undefined.
Proof. reflexivity. Qed.

(** ** Filling missing nodes *)

Lemma fill_node_missing (estimate : bool -> SplineFit.obj -> nat ->
                                    SplineFit.datum * SplineFit.datum)
    (linearfit : bool) (sf : SplineFit.obj) (i : nat) :
  SplineFit.missing (SplineFit.fill_node estimate linearfit sf i)
  = SplineFit.missing sf.
Proof.
  unfold SplineFit.fill_node.
  destruct (nth i (SplineFit.missing sf) false); [|reflexivity].
  destruct (estimate linearfit sf i); reflexivity.
Qed.

Lemma fill_nodes_missing (estimate : bool -> SplineFit.obj -> nat ->
                                     SplineFit.datum * SplineFit.datum)
    (linearfit : bool) (nodes : list nat) (sf : SplineFit.obj) :
  SplineFit.missing
    (fold_left (SplineFit.fill_node estimate linearfit) nodes sf)
  = SplineFit.missing sf.
Proof.
  revert sf; induction nodes as [|i nodes IH]; intro sf; simpl.
  - reflexivity.
  - rewrite IH; apply fill_node_missing.
Qed.

(** C9.  [fillmissing] leaves the [missing] vector as it was, for every
    trajectory, either value of [linearfit] and whatever positions and
    velocities it writes. *)
Theorem fillmissing_keeps_missing
    (estimate : bool -> SplineFit.obj -> nat -> SplineFit.datum * SplineFit.datum)
    (linearfit : bool) (sf : SplineFit.obj) :
  SplineFit.missing (snd (SplineFit.fillmissing estimate linearfit sf))
  = SplineFit.missing sf.
Proof.
  unfold SplineFit.fillmissing.
  destruct (forallb (fun m => m) (SplineFit.missing sf)); simpl.
  - reflexivity.
  - apply fill_nodes_missing.
Qed.

(** * Further properties of the header *)

(** ** More on the scalar cubic evaluator *)

(** X3.  The evaluator reproduces every cubic from its endpoint data: fed
    with the values and derivatives of a cubic [q] at [-0.5] and [+0.5], it
    returns [q t] at every [t], inside the segment or outside, with the
    first and second derivatives of [q] in the two outputs. *)
Theorem EndPointCubic_reproduces_cubic (c0 c1 c2 c3 t : R) :
  let q := cubic c0 c1 c2 c3 in
  let q' := cubic_deriv c1 c2 c3 in
  cubic_position (q (-0.5)) (q' (-0.5)) (q 0.5) (q' 0.5) t = q t
  /\ cubic_velocity (q (-0.5)) (q' (-0.5)) (q 0.5) (q' 0.5) t = q' t
  /\ cubic_acceleration (q (-0.5)) (q' (-0.5)) (q 0.5) (q' 0.5) t
     = 2 * c2 + 6 * c3 * t.
Proof.
  intros q q'; unfold q, q'.
  rewrite cubic_position_cubic, cubic_velocity_cubic, cubic_acceleration_cubic.
  unfold cubic, cubic_deriv, coef_a0, coef_a1, coef_a2, coef_a3; decimals.
  repeat split; field.
Qed.

(** X4.  Reversing time swaps the roles of the two endpoints: with the
    endpoints exchanged and the velocities negated, the evaluator at [-t]
    returns the same position and acceleration, and the opposite
    velocity. *)
Theorem EndPointCubic_time_reversal (rm vm rp vp t : R) :
  cubic_position rp (- vp) rm (- vm) (- t) = cubic_position rm vm rp vp t
  /\ cubic_velocity rp (- vp) rm (- vm) (- t) = - cubic_velocity rm vm rp vp t
  /\ cubic_acceleration rp (- vp) rm (- vm) (- t)
     = cubic_acceleration rm vm rp vp t.
Proof.
  rewrite !cubic_position_cubic, !cubic_velocity_cubic,
    !cubic_acceleration_cubic.
  unfold cubic, coef_a0, coef_a1, coef_a2, coef_a3.
  repeat split; field.
Qed.

(** X5.  In exact arithmetic the evaluator is linear in the endpoint
    data: on a linear combination of two sets of endpoint values it
    returns the same combination of the two positions, and likewise in
    both outputs. *)
Theorem EndPointCubic_superposition (alpha beta : R)
    (rm1 vm1 rp1 vp1 rm2 vm2 rp2 vp2 t : R) :
  let mix x y := alpha * x + beta * y in
  cubic_position (mix rm1 rm2) (mix vm1 vm2) (mix rp1 rp2) (mix vp1 vp2) t
  = mix (cubic_position rm1 vm1 rp1 vp1 t) (cubic_position rm2 vm2 rp2 vp2 t)
  /\ cubic_velocity (mix rm1 rm2) (mix vm1 vm2) (mix rp1 rp2) (mix vp1 vp2) t
     = mix (cubic_velocity rm1 vm1 rp1 vp1 t)
           (cubic_velocity rm2 vm2 rp2 vp2 t)
  /\ cubic_acceleration (mix rm1 rm2) (mix vm1 vm2) (mix rp1 rp2)
       (mix vp1 vp2) t
     = mix (cubic_acceleration rm1 vm1 rp1 vp1 t)
           (cubic_acceleration rm2 vm2 rp2 vp2 t).
Proof.
  intro mix; unfold mix.
  rewrite !cubic_position_cubic, !cubic_velocity_cubic,
    !cubic_acceleration_cubic.
  unfold cubic, coef_a0, coef_a1, coef_a2, coef_a3.
  repeat split; field.
Qed.

(** ** More on the block index mapper *)

(** What a returned pair says about the arguments, and the value returned
    when both [int] computations are representable. *)
Lemma tconvert_Ok_inv (sf : SplineFit.obj) (t : R) (i : Z) (tf : R) :
  SplineFit.tconvert sf t = Ok (i, tf) ->
  let q := (t - SplineFit.tstart sf) / SplineFit.tblock sf in
  SplineFit.tblock sf <> 0
  /\ (INT_MIN <= SplineFit.num sf - 1 <= INT_MAX)%Z
  /\ (INT_MIN <= Zfloor q <= INT_MAX)%Z
  /\ i = Z.min (SplineFit.num sf - 1) (Z.max 0 (Zfloor q))
  /\ tf = q - (IZR i + 0.5).
Proof.
  unfold SplineFit.tconvert.
  destruct (Req_dec_T (SplineFit.tblock sf) 0) as [E|Hb]; [discriminate|].
  unfold int_sub, to_int.
  destruct (int_range (SplineFit.num sf - 1)) eqn:Hn; simpl; [|discriminate].
  rewrite int_of_double_floor; unfold to_int.
  destruct (int_range (Zfloor ((t - SplineFit.tstart sf) / SplineFit.tblock sf)))
    eqn:Hq; simpl; [|discriminate].
  intro H; injection H as Hi Htf.
  apply int_range_spec in Hn, Hq; subst i; auto.
Qed.

Lemma tconvert_value (sf : SplineFit.obj) (t : R) :
  let q := (t - SplineFit.tstart sf) / SplineFit.tblock sf in
  let i := Z.min (SplineFit.num sf - 1) (Z.max 0 (Zfloor q)) in
  SplineFit.tblock sf <> 0 ->
  (INT_MIN <= SplineFit.num sf - 1 <= INT_MAX)%Z ->
  (INT_MIN <= Zfloor q <= INT_MAX)%Z ->
  SplineFit.tconvert sf t = Ok (i, q - (IZR i + 0.5)).
Proof.
  intros q i Hb Hn Hq; unfold SplineFit.tconvert.
  destruct (Req_dec_T (SplineFit.tblock sf) 0) as [E|_]; [contradiction|].
  unfold int_sub; rewrite to_int_in_range by exact Hn.
  simpl; rewrite int_of_double_floor, to_int_in_range by exact Hq.
  reflexivity.
Qed.

(** The example trajectory in the middle of block 2, before its start and
    past its end. *)
Lemma tconvert_ex_mid : SplineFit.tconvert ex_fit 2.5 = Ok (2%Z, 0).
Proof.
  assert (F : Zfloor ((2.5 - 0) / 1) = 2%Z) by (apply Zfloor_eq; decimals; lra).
  rewrite tconvert_value; simpl; rewrite ?F;
    try (unfold INT_MIN, INT_MAX; lia); try lra.
  change (Z.min 4 (Z.max 0 2)) with 2%Z; do 2 f_equal; decimals; field.
Qed.

Lemma tconvert_ex_before : SplineFit.tconvert ex_fit (-10) = Ok (0%Z, -10.5).
Proof.
  assert (F : Zfloor ((-10 - 0) / 1) = (-10)%Z) by (apply Zfloor_eq; lra).
  rewrite tconvert_value; simpl; rewrite ?F;
    try (unfold INT_MIN, INT_MAX; lia); try lra.
  change (Z.min 4 (Z.max 0 (-10))) with 0%Z; do 2 f_equal; decimals; field.
Qed.

Lemma tconvert_ex_after : SplineFit.tconvert ex_fit 7 = Ok (4%Z, 2.5).
Proof.
  assert (F : Zfloor ((7 - 0) / 1) = 7%Z) by (apply Zfloor_eq; lra).
  rewrite tconvert_value; simpl; rewrite ?F;
    try (unfold INT_MIN, INT_MAX; lia); try lra.
  change (Z.min 4 (Z.max 0 7)) with 4%Z; do 2 f_equal; decimals; field.
Qed.







(** X12.  A trajectory without blocks has no valid index.  When [num] is
    zero or negative (the default constructor gives [num = -1]), every
    defined call returns the negative index [num - 1], which names no
    node. *)
Theorem tconvert_no_block (sf : SplineFit.obj) (t : R) (i : Z) (tf : R) :
  (SplineFit.num sf <= 0)%Z ->
  SplineFit.tconvert sf t = Ok (i, tf) ->
  i = (SplineFit.num sf - 1)%Z /\ (i < 0)%Z.
Proof.
  intros Hn H; apply tconvert_Ok_inv in H.
  destruct H as (_ & _ & _ & -> & _); lia.
Qed.

Lemma tconvert_no_block_witness :
  (-1 <= 0)%Z
  /\ SplineFit.tconvert (SplineFit.mk (-1) 1 0 [] [] []) 2.5
     = Ok ((-2)%Z, 4)
  /\ (-2)%Z = (-1 - 1)%Z /\ (-2 < 0)%Z.
Proof.
  assert (Hn : (SplineFit.num (SplineFit.mk (-1) 1 0 [] [] []) <= 0)%Z)
    by (simpl; lia).
  assert (H : SplineFit.tconvert (SplineFit.mk (-1) 1 0 [] [] []) 2.5
              = Ok ((-2)%Z, 4)).
  { assert (F : Zfloor ((2.5 - 0) / 1) = 2%Z)
      by (apply Zfloor_eq; decimals; lra).
    rewrite tconvert_value; simpl; rewrite ?F;
      try (unfold INT_MIN, INT_MAX; lia); try lra.
    change (Z.min (-2) (Z.max 0 2)) with (-2)%Z.
    do 2 f_equal; decimals; field. }
  split; [exact Hn|]; split; [exact H|].
  exact (tconvert_no_block _ 2.5 (-2) 4 Hn H).
Defined.

(** ** Construction and lookup together *)

Lemma bind_Ok_inv {A B : Type} (c : outcome A) (k : A -> outcome B) (b : B) :
  bind c k = Ok b -> exists a, c = Ok a /\ k a = Ok b.
Proof. destruct c; simpl; intro H; try discriminate; eauto. Qed.

Lemma to_int_Ok_inv (z z' : Z) :
  to_int z = Ok z' -> z' = z /\ (INT_MIN <= z <= INT_MAX)%Z.
Proof.
  unfold to_int; destruct (int_range z) eqn:E; intro H; [|discriminate].
  injection H as <-; apply int_range_spec in E; auto.
Qed.

Lemma std_vector_Ok_inv {A : Type} (n : Z) (init : nat -> A) (l : list A) :
  (INT_MIN <= n <= INT_MAX)%Z ->
  std_vector n init = Ok l ->
  (0 <= n)%Z /\ l = map init (seq 0 (Z.to_nat n)).
Proof.
  intros Hn H; destruct (Z_lt_le_dec n 0) as [Hneg|Hpos].
  - rewrite std_vector_negative in H by lia; discriminate.
  - rewrite std_vector_nonneg in H by lia; injection H as <-; auto.
Qed.

(** A returned object is the one [ctor_nodes] describes. *)
Lemma ctor_Ok_shape (ir iv : nat -> SplineFit.datum) (num : Z)
    (tblock tstart : R) (sf : SplineFit.obj) :
  SplineFit.ctor ir iv num tblock tstart = Ok sf ->
  (-1 <= num < INT_MAX)%Z
  /\ sf = SplineFit.mk num tblock tstart
            (map ir (seq 0 (Z.to_nat (num + 1))))
            (map iv (seq 0 (Z.to_nat (num + 1))))
            (map (fun _ => false) (seq 0 (Z.to_nat (num + 1)))).
Proof.
  unfold SplineFit.ctor, int_add; intro H.
  apply bind_Ok_inv in H; destruct H as (nr & Hnr & H).
  apply to_int_Ok_inv in Hnr; destruct Hnr as [-> Hr].
  apply bind_Ok_inv in H; destruct H as (r & Hvr & H).
  apply std_vector_Ok_inv in Hvr; [|exact Hr]; destruct Hvr as [H0 ->].
  rewrite to_int_in_range in H by exact Hr; simpl in H.
  rewrite !std_vector_nonneg in H by (unfold INT_MAX in *; lia); simpl in H.
  injection H as <-.
  split; [unfold INT_MIN, INT_MAX in *; lia | reflexivity].
Qed.

(** X13.  What a successful construction means: the constructor returns
    an object only for [-1 <= num < INT_MAX], and then the object holds the
    three arguments, its vectors [r], [v] and [missing] have the same
    length [num + 1], and no node is flagged missing. *)
Theorem ctor_Ok_inv (ir iv : nat -> SplineFit.datum) (num : Z)
    (tblock tstart : R) (sf : SplineFit.obj) :
  SplineFit.ctor ir iv num tblock tstart = Ok sf ->
  (-1 <= num < INT_MAX)%Z
  /\ SplineFit.num sf = num
  /\ SplineFit.tblock sf = tblock
  /\ SplineFit.tstart sf = tstart
  /\ Z.of_nat (length (SplineFit.r sf)) = (num + 1)%Z
  /\ length (SplineFit.v sf) = length (SplineFit.r sf)
  /\ length (SplineFit.missing sf) = length (SplineFit.r sf)
  /\ forallb negb (SplineFit.missing sf) = true.
Proof.
  intro H; apply ctor_Ok_shape in H; destruct H as [Hn ->]; simpl.
  rewrite !length_map, !length_seq, Z2Nat.id by lia.
  repeat split; try lia.
  apply forallb_forall; intros m Hm.
  apply in_map_iff in Hm; destruct Hm as (k & <- & _); reflexivity.
Qed.

Lemma ctor_Ok_inv_witness :
  SplineFit.ctor ex_storage ex_storage 5 1 0 = Ok ex_fit
  /\ (-1 <= 5 < INT_MAX)%Z
  /\ SplineFit.num ex_fit = 5%Z
  /\ SplineFit.tblock ex_fit = 1
  /\ SplineFit.tstart ex_fit = 0
  /\ Z.of_nat (length (SplineFit.r ex_fit)) = (5 + 1)%Z
  /\ length (SplineFit.v ex_fit) = length (SplineFit.r ex_fit)
  /\ length (SplineFit.missing ex_fit) = length (SplineFit.r ex_fit)
  /\ forallb negb (SplineFit.missing ex_fit) = true.
Proof.
  split; [exact ex_fit_constructed|].
  exact (ctor_Ok_inv ex_storage ex_storage 5 1 0 ex_fit ex_fit_constructed).
Defined.

(** X14.  The index is safe to use on a constructed trajectory.  On an
    object the constructor returned for at least one block, the index [i]
    of any defined call names two stored nodes: [0 <= i] and [i + 1] is
    below the length of [r] and of [v]. *)
Theorem tconvert_index_in_bounds (ir iv : nat -> SplineFit.datum) (num : Z)
    (tblock tstart : R) (sf : SplineFit.obj) (t : R) (i : Z) (tf : R) :
  (1 <= num)%Z ->
  SplineFit.ctor ir iv num tblock tstart = Ok sf ->
  SplineFit.tconvert sf t = Ok (i, tf) ->
  (0 <= i)%Z
  /\ (i + 1 < Z.of_nat (length (SplineFit.r sf)))%Z
  /\ (i + 1 < Z.of_nat (length (SplineFit.v sf)))%Z.
Proof.
  intros Hn Hc Ht.
  apply ctor_Ok_shape in Hc; destruct Hc as [Hr ->].
  apply tconvert_Ok_inv in Ht; destruct Ht as (_ & _ & _ & -> & _).
  simpl; rewrite !length_map, !length_seq, Z2Nat.id by lia; lia.
Qed.

Lemma tconvert_index_in_bounds_witness :
  (1 <= 5)%Z
  /\ SplineFit.ctor ex_storage ex_storage 5 1 0 = Ok ex_fit
  /\ SplineFit.tconvert ex_fit 7 = Ok (4%Z, 2.5)
  /\ (0 <= 4)%Z
  /\ (4 + 1 < Z.of_nat (length (SplineFit.r ex_fit)))%Z
  /\ (4 + 1 < Z.of_nat (length (SplineFit.v ex_fit)))%Z.
Proof.
  assert (Hn : (1 <= 5)%Z) by lia.
  split; [exact Hn|]; split; [exact ex_fit_constructed|];
    split; [exact tconvert_ex_after|].
  exact (tconvert_index_in_bounds ex_storage ex_storage 5 1 0 ex_fit 7 4 2.5
           Hn ex_fit_constructed tconvert_ex_after).
Defined.

(** ** More on the two functors *)





(** X17.  The residual buffer is an output only.  After a call of either
    functor the first [N] cells hold the residuals whatever the buffer
    held before, every other cell is as it was, and the call returns
    [true]. *)
Theorem residual_buffer_after_call (N : nat) (aj : AccelJumpConstraint.obj)
    (cl : ClampConstraint.obj) (ra va rb vb rc vc residual : array) (k : nat) :
  AccelJumpConstraint.call N aj ra va vb rc vc residual
  = (true, snd (AccelJumpConstraint.call N aj ra va vb rc vc residual))
  /\ ClampConstraint.call N cl ra va rb rc vc residual
     = (true, snd (ClampConstraint.call N cl ra va rb rc vc residual))
  /\ snd (AccelJumpConstraint.call N aj ra va vb rc vc residual) k
     = (if (k <? N)%nat
        then AccelJumpConstraint._scale aj
             * (3 * (rc k - ra k) - (vc k + va k) - 4 * vb k)
        else residual k)
  /\ snd (ClampConstraint.call N cl ra va rb rc vc residual) k
     = (if (k <? N)%nat
        then ClampConstraint._scale cl
             * (4 * rb k - 2 * (rc k + ra k) + (vc k - va k))
        else residual k).
Proof.
  split; [reflexivity|]; split; [reflexivity|].
  destruct (Nat.ltb_spec k N) as [Hk|Hk].
  - split; [now apply AccelJump_residual | now apply Clamp_residual].
  - split; [now apply AccelJump_frame | now apply Clamp_frame].
Qed.
